(** * Yara-based plugins of Spike Guard (src/plugins/yara/plugins_yara.cpp)

    A shallow embedding of [YaraPlugin::scan], [YaraPlugin::_load_rules] and
    of the four concrete plugins built on them, followed by the properties
    of the scan-and-report protocol.

    The plugin object owns a stateful Yara engine and prints diagnostics.
    Both effects are kept: every member function is a computation over a
    [World] holding the object ([_rule_file], [_engine]) and the trace of
    the engine calls and diagnostics made so far. *)

From Stdlib Require Import String Ascii List Sorted OrderedTypeEx Bool Arith Lia.
From stdpp Require Import base option list strings gmap.
Import ListNotations.

Local Open Scope string_scope.
Local Open Scope list_scope.

(** ** [std::set<std::string>]

    The local variable [found] of [scan] is a [std::set<std::string>]: its
    iterator visits the elements in ascending order of [operator<] on
    [std::string] (lexicographic on the characters), each element once.
    The set is represented by the sequence its iterator yields. *)
Module StdSet.

Definition t := list string.

Definition empty : t := [].

(** [std::set::insert]: no effect when an equal key is present. *)
Fixpoint insert (x : string) (s : t) : t :=
  match s with
  | [] => [x]
  | y :: s' =>
      match String.compare x y with
      | Lt => x :: y :: s'
      | Eq => y :: s'
      | Gt => y :: insert x s'
      end
  end.

(** A set filled by inserting the elements of [l] one after the other. *)
Definition of_list (l : list string) : t :=
  fold_left (fun s x => insert x s) l empty.

(** [begin() .. end()]. *)
Definition iterate (s : t) : list string := s.

Definition lt (a b : string) : Prop := String.compare a b = Lt.

(** The class invariant of the container. *)
Definition ascending (s : t) : Prop := StronglySorted lt s.

End StdSet.

(** ** [yara::Match] and [yara::matches] *)

(** Modelled from the spec: yara_wrapper.h (classes [yara::Match] and
    [yara::Yara]) is not among the sources.  A MatchRecord "has a mapping of
    metadata-field-name -> string value, and a set of matched substrings".
    [found] lists the substrings in the order the engine hit them, one
    entry per hit; [get_found_strings] hands them out as the
    [std::set<std::string>] that [scan] iterates over.  Indexing by an
    absent field yields the empty string, as [std::map::operator[]] does. *)
Record Match := mkMatch {
  metadata : gmap string string;
  found : list string
}.

Definition Match_index (it : Match) (name : string) : string :=
  default "" (metadata it !! name).

Definition get_found_strings (it : Match) : StdSet.t :=
  StdSet.of_list (found it).

Definition matches := list Match.

(** ** [Result] *)

(** Modelled from the spec: plugin_framework/plugin_interface.h (class
    [Result]) is not among the sources.  A Finding is "{ severity (default:
    lowest/none), summary (set only on match), information: ordered
    sequence of strings (append-only, insertion order preserved) }".  The
    level names are the ones plugins_yara.cpp uses; [NO_OPINION] is the
    lowest/none level. *)
Module Result.

Inductive LEVEL := NO_OPINION | SUSPICIOUS | MALICIOUS.

Record t := mk {
  _level : LEVEL;
  _summary : option string;
  _data : list string
}.

(** [new Result]. *)
Definition new : t := mk NO_OPINION None [].

Definition set_level (level : LEVEL) (res : t) : t :=
  mk level (_summary res) (_data res).

Definition set_summary (s : string) (res : t) : t :=
  mk (_level res) (Some s) (_data res).

Definition add_information (info : string) (res : t) : t :=
  mk (_level res) (_summary res) (_data res ++ [info]).

End Result.

Definition pResult := Result.t.

(** ** [sg::PE]: only its path is used. *)
Record PE := mkPE { get_path : string }.

(** The tab character of the literal ["\t"]. *)
Definition TAB : string := String "009"%char EmptyString.

(** ** The engine interface

    [yara::Yara] is an external collaborator: [load_rules] compiles a rule
    file and tells whether it succeeded, [scan_file] returns the match
    records of a file.  Both may change the engine. *)
Class Yara (E : Type) := {
  Yara_new : E;
  load_rules : string -> E -> bool * E;
  scan_file : string -> E -> matches * E
}.

(** What a call leaves behind, apart from its return value. *)
Inductive Event :=
| Ev_load_rules (rule_file : string) (ok : bool)
| Ev_scan_file (path : string)
| Ev_PRINT_ERROR (msg : string).

Definition is_load (ev : Event) : bool :=
  match ev with Ev_load_rules _ _ => true | _ => false end.

(** Number of rule-load attempts recorded in a trace. *)
Definition load_attempts (tr : list Event) : nat :=
  length (List.filter is_load tr).

Section Plugin.

Context {E : Type} {engine : Yara E}.

(** The data members of [class YaraPlugin]. *)
Record YaraPlugin := mkYaraPlugin {
  _rule_file : string;
  _engine : E
}.

(** [YaraPlugin(const std::string& rule_file) : _rule_file(rule_file) {}] *)
Definition YaraPlugin_new (rule_file : string) : YaraPlugin :=
  mkYaraPlugin rule_file Yara_new.

Record World := mkWorld {
  this : YaraPlugin;
  trace : list Event
}.

(** Member functions are state transformers over the world. *)
Definition M (A : Type) : Type := World -> A * World.

Definition ret {A} (a : A) : M A := fun w => (a, w).

Definition bind {A B} (c : M A) (k : A -> M B) : M B :=
  fun w => let (a, w') := c w in k a w'.

Definition emit (ev : Event) : M unit :=
  fun w => (tt, mkWorld (this w) (trace w ++ [ev])).

Definition read_rule_file : M string :=
  fun w => (_rule_file (this w), w).

(** [_engine.load_rules(f)] *)
Definition engine_load_rules (f : string) : M bool :=
  fun w =>
    let (ok, e') := load_rules f (_engine (this w)) in
    (ok, mkWorld (mkYaraPlugin (_rule_file (this w)) e')
                 (trace w ++ [Ev_load_rules f ok])).

(** [_engine.scan_file(path)] *)
Definition engine_scan_file (path : string) : M matches :=
  fun w =>
    let (m, e') := scan_file path (_engine (this w)) in
    (m, mkWorld (mkYaraPlugin (_rule_file (this w)) e')
                (trace w ++ [Ev_scan_file path])).

(** [PRINT_ERROR << ... << std::endl] *)
Definition PRINT_ERROR (msg : string) : M unit := emit (Ev_PRINT_ERROR msg).

End Plugin.

Arguments YaraPlugin E : clear implicits.
Arguments World E : clear implicits.
Arguments M E A : clear implicits.

Declare Scope plugin_scope.
Delimit Scope plugin_scope with plugin.
Notation "'let*' x := c 'in' k" := (bind c (fun x => k))
  (at level 10, x name, c at level 100, k at level 200) : plugin_scope.

Section Scan.

Context {E : Type} {engine : Yara E}.
Local Open Scope plugin_scope.

(** [bool YaraPlugin::_load_rules()] *)
Definition _load_rules : M E bool :=
  let* f := read_rule_file in
  let* ok := engine_load_rules f in
  if negb ok then
    let* f' := read_rule_file in
    let* _ := PRINT_ERROR ("Could not load " +:+ f' +:+ "!") in
    ret false
  else ret true.

(** The body of the inner loop of [scan]: one line per element of
    [found]. *)
Definition add_found_string (res : pResult) (s : string) : pResult :=
  Result.add_information (TAB +:+ s) res.

(** The body of the outer loop of [scan], for the match record [it]. *)
Definition scan_record (meta_field_name : string) (show_strings : bool)
    (res : pResult) (it : Match) : pResult :=
  if negb show_strings then
    Result.add_information (Match_index it meta_field_name) res
  else
    let res :=
      Result.add_information
        (Match_index it meta_field_name +:+ " String(s) found:") res in
    let found := get_found_strings it in
    fold_left add_found_string (StdSet.iterate found) res.

(** [pResult YaraPlugin::scan(pe, summary, level, meta_field_name,
    show_strings)] *)
Definition scan (pe : PE) (summary : string) (level : Result.LEVEL)
    (meta_field_name : string) (show_strings : bool) : M E pResult :=
  let res := Result.new in
  let* loaded := _load_rules in
  if negb loaded then ret res
  else
    let* m := engine_scan_file (get_path pe) in
    if Nat.ltb 0 (length m) then
      let res := Result.set_level level res in
      let res := Result.set_summary summary res in
      ret (fold_left (scan_record meta_field_name show_strings) m res)
    else ret res.

End Scan.

(** ** The concrete plugins

    [ClamavPlugin], [CompilerDetectionPlugin], [PEiDPlugin] and
    [SuspiciousStringsPlugin] derive from [YaraPlugin]; each fixes the rule
    file in its constructor and the arguments of [scan] in [analyze]. *)
Inductive Plugin :=
| ClamavPlugin
| CompilerDetectionPlugin
| PEiDPlugin
| SuspiciousStringsPlugin.

(** The argument each constructor passes to [YaraPlugin(rule_file)]. *)
Definition rule_file_of (p : Plugin) : string :=
  match p with
  | ClamavPlugin => "yara_rules/clamav.yara"
  | CompilerDetectionPlugin => "yara_rules/compilers.yara"
  | PEiDPlugin => "yara_rules/peid.yara"
  | SuspiciousStringsPlugin => "yara_rules/suspicious_strings.yara"
  end.

Definition get_id (p : Plugin) : string :=
  match p with
  | ClamavPlugin => "clamav"
  | CompilerDetectionPlugin => "compilers"
  | PEiDPlugin => "peid"
  | SuspiciousStringsPlugin => "strings"
  end.

Definition get_description (p : Plugin) : string :=
  match p with
  | ClamavPlugin => "Scans the binary with ClamAV virus definitions."
  | CompilerDetectionPlugin =>
      "Tries to determine which compiler generated the binary."
  | PEiDPlugin => "Returns the PEiD signature of the binary."
  | SuspiciousStringsPlugin =>
      "Looks for suspicious strings (anti-VM, process names...)."
  end.

Definition get_api_version (p : Plugin) : nat := 1.

(** The constants each [analyze] passes to [scan], named for the
    statements below. *)
Definition summary_of (p : Plugin) : string :=
  match p with
  | ClamavPlugin => "Matching ClamAV signature(s):"
  | CompilerDetectionPlugin => "Matching compiler(s):"
  | PEiDPlugin => "PEiD Signature:"
  | SuspiciousStringsPlugin =>
      "Strings found in the binary may indicate undesirable behavior:"
  end.

Definition level_of (p : Plugin) : Result.LEVEL :=
  match p with
  | ClamavPlugin => Result.MALICIOUS
  | CompilerDetectionPlugin => Result.NO_OPINION
  | PEiDPlugin => Result.SUSPICIOUS
  | SuspiciousStringsPlugin => Result.SUSPICIOUS
  end.

Definition meta_field_name_of (p : Plugin) : string :=
  match p with
  | ClamavPlugin => "signature"
  | CompilerDetectionPlugin => "description"
  | PEiDPlugin => "packer_name"
  | SuspiciousStringsPlugin => "description"
  end.

Definition show_strings_of (p : Plugin) : bool :=
  match p with
  | SuspiciousStringsPlugin => true
  | _ => false
  end.

Section Analyze.

Context {E : Type} {engine : Yara E}.
Local Open Scope plugin_scope.

(** The object a plugin's default constructor builds. *)
Definition construct (p : Plugin) : YaraPlugin E :=
  YaraPlugin_new (rule_file_of p).

(** [pResult analyze(const sg::PE& pe)], one body per class;
    [show_strings] defaults to [false]. *)
Definition analyze (p : Plugin) (pe : PE) : M E pResult :=
  match p with
  | ClamavPlugin =>
      scan pe "Matching ClamAV signature(s):" Result.MALICIOUS
           "signature" false
  | CompilerDetectionPlugin =>
      scan pe "Matching compiler(s):" Result.NO_OPINION "description" false
  | PEiDPlugin =>
      scan pe "PEiD Signature:" Result.SUSPICIOUS "packer_name" false
  | SuspiciousStringsPlugin =>
      scan pe
           "Strings found in the binary may indicate undesirable behavior:"
           Result.SUSPICIOUS "description" true
  end.

(** A host calling [analyze] on one plugin object for a series of
    targets, one call after the other. *)
Fixpoint analyze_all (p : Plugin) (pes : list PE) : M E (list pResult) :=
  match pes with
  | [] => ret []
  | pe :: pes' =>
      let* r := analyze p pe in
      let* rs := analyze_all p pes' in
      ret (r :: rs)
  end.

(** The lines one match record adds to an empty [Result]. *)
Definition record_lines (meta_field_name : string) (show_strings : bool)
    (it : Match) : list string :=
  Result._data (scan_record meta_field_name show_strings Result.new it).

(** The reading of "a failed rule load is terminal": when the load fails
    in a first [analyze], a second [analyze] on the same object makes no
    load attempt. *)
Definition failed_load_is_terminal (p : Plugin) (pe1 pe2 : PE)
    (w : World E) : Prop :=
  fst (load_rules (_rule_file (this w)) (_engine (this w))) = false ->
  let w1 := snd (analyze p pe1 w) in
  load_attempts (trace (snd (analyze p pe2 w1))) = load_attempts (trace w1).

End Analyze.

(** ** The plugin catalog *)

(** Modelled from the spec: plugin_framework/auto_register.h (template
    [AutoRegister] and the manager it registers with) is not among the
    sources.  Detectors "register themselves under a stable identifier and
    description"; the catalog "exposes enumeration (stable but not
    necessarily sorted) and lookup-by-id; duplicate id registration is a
    configuration error (reported, not silently overwritten)". *)
Module Catalog.

Record DetectorDescriptor := mkDescriptor {
  id : string;
  description : string
}.

(** Entries in registration order. *)
Definition t := list DetectorDescriptor.

Definition lookup (key : string) (c : t) : option DetectorDescriptor :=
  List.find (fun d => String.eqb (id d) key) c.

Inductive Report :=
| Registered
| ConfigurationError (duplicate_id : string).

Definition register (d : DetectorDescriptor) (c : t) : t * Report :=
  match lookup (id d) c with
  | Some _ => (c, ConfigurationError (id d))
  | None => (c ++ [d], Registered)
  end.

Definition descriptor_of (p : Plugin) : DetectorDescriptor :=
  mkDescriptor (get_id p) (get_description p).

(** [AutoRegister<T> auto_register_x;] *)
Definition AutoRegister (p : Plugin) (c : t) : t * Report :=
  register (descriptor_of p) c.

(** The four static objects at the end of plugins_yara.cpp, in
    declaration order, with the reports they produce. *)
Definition static_registrations : t * list Report :=
  fold_left
    (fun acc p =>
       let (c, rep) := AutoRegister p (fst acc) in (c, snd acc ++ [rep]))
    [ClamavPlugin; CompilerDetectionPlugin; PEiDPlugin;
     SuspiciousStringsPlugin]
    ([], []).

End Catalog.

(** ** A scripted engine

    A stand-in for the external engine, used to run the plugins on
    concrete inputs: [loads] scripts the outcomes of the coming
    [load_rules] calls (a call past the script fails), [hits] is what
    [scan_file] returns. *)
Module Scripted.

Record t := mk {
  loads : list bool;
  hits : matches
}.

Definition load (rule_file : string) (e : t) : bool * t :=
  match loads e with
  | [] => (false, e)
  | ok :: rest => (ok, mk rest (hits e))
  end.

Definition scan (path : string) (e : t) : matches * t := (hits e, e).

#[global] Instance yara : Yara t := {
  Yara_new := mk [] [];
  load_rules := load;
  scan_file := scan
}.

(** A plugin object of kind [p] whose engine follows the script. *)
Definition world (p : Plugin) (script : list bool) (m : matches) : World t :=
  mkWorld (mkYaraPlugin (rule_file_of p) (mk script m)) [].

End Scripted.

(** Sample data. *)
Definition sample_pe : PE := mkPE "sample.exe".

Definition eicar : Match :=
  mkMatch {[ "signature" := "EICAR-Test" ]} [].

Definition upx : Match :=
  mkMatch {[ "description" := "UPX" ]} ["UPX1"; "UPX0"; "UPX1"].

Definition bare : Match :=
  mkMatch {[ "description" := "Bare" ]} [].

(** Reading of a trace: an event that is a rule-load attempt names the
    rule file [rf]. *)
Definition loads_from (rf : string) (ev : Event) : Prop :=
  match ev with
  | Ev_load_rules f _ => f = rf
  | _ => True
  end.

(** Reading of a [Result]: it is either untouched or carries the level
    and the summary of plugin [p]. *)
Definition configured_by (p : Plugin) (res : pResult) : Prop :=
  res = Result.new \/
  (Result._level res = level_of p /\
   Result._summary res = Some (summary_of p)).

(** What one call of [scan] on the target [pe] leaves in the trace, for a
    plugin object with rule file [rf], when the load attempt answers
    [ok]: the attempt, then the scan of the file or the diagnostic. *)
Definition call_events (rf : string) (pe : PE) (ok : bool) : list Event :=
  [Ev_load_rules rf ok;
   if ok then Ev_scan_file (get_path pe)
   else Ev_PRINT_ERROR ("Could not load " +:+ rf +:+ "!")].

(** * Properties *)

(** ** The order of [std::string] and the [std::set] invariant *)
Section StdSetFacts.

Import StdSet.

Lemma lt_trans (a b c : string) : lt a b -> lt b c -> lt a c.
Proof.
  unfold lt. intros Hab Hbc.
  apply String_as_OT.cmp_lt in Hab, Hbc.
  apply String_as_OT.cmp_lt.
  exact (String_as_OT.lt_trans _ _ _ Hab Hbc).
Qed.

Lemma compare_refl (a : string) : String.compare a a = Eq.
Proof. now apply String_as_OT.cmp_eq. Qed.

Lemma lt_irrefl (a : string) : ~ lt a a.
Proof. unfold lt. rewrite compare_refl. discriminate. Qed.

Lemma compare_Gt_lt (a b : string) : String.compare a b = Gt -> lt b a.
Proof.
  unfold lt. intros H. rewrite String.compare_antisym, H. reflexivity.
Qed.

Lemma lt_asym (a b : string) : lt a b -> ~ lt b a.
Proof. intros Hab Hba. exact (lt_irrefl a (lt_trans _ _ _ Hab Hba)). Qed.

Lemma insert_In (x y : string) (s : t) :
  In y (insert x s) <-> y = x \/ In y s.
Proof.
  induction s as [|z s IH]; simpl.
  - intuition congruence.
  - destruct (String.compare x z) eqn:Hc; simpl.
    + apply String.compare_eq_iff in Hc. subst z. intuition congruence.
    + intuition congruence.
    + rewrite IH. intuition congruence.
Qed.

Lemma insert_ascending (x : string) (s : t) :
  ascending s -> ascending (insert x s).
Proof.
  unfold ascending.
  induction s as [|z s IH]; simpl; intros Hs.
  - repeat constructor.
  - inversion Hs as [|? ? Hs' Hz]; subst.
    destruct (String.compare x z) eqn:Hc.
    + assumption.
    + constructor; [assumption|].
      constructor; [exact Hc|].
      apply List.Forall_forall. intros b Hb.
      rewrite List.Forall_forall in Hz.
      exact (lt_trans _ _ _ Hc (Hz b Hb)).
    + constructor; [auto|].
      apply List.Forall_forall. intros b Hb.
      apply insert_In in Hb. destruct Hb as [->|Hb].
      * now apply compare_Gt_lt.
      * rewrite List.Forall_forall in Hz. auto.
Qed.

Lemma fold_insert_ascending (l : list string) (s : t) :
  ascending s -> ascending (fold_left (fun s x => insert x s) l s).
Proof.
  revert s. induction l as [|x l IH]; simpl; intros s Hs; [assumption|].
  apply IH. now apply insert_ascending.
Qed.

Lemma fold_insert_In (l : list string) (s : t) (y : string) :
  In y (fold_left (fun s x => insert x s) l s) <-> In y l \/ In y s.
Proof.
  revert s. induction l as [|x l IH]; simpl; intros s.
  - intuition.
  - rewrite IH, insert_In. intuition congruence.
Qed.

Lemma of_list_ascending (l : list string) : ascending (of_list l).
Proof. apply fold_insert_ascending. constructor. Qed.

Lemma of_list_In (l : list string) (y : string) :
  In y (of_list l) <-> In y l.
Proof. unfold of_list. rewrite fold_insert_In. simpl. intuition. Qed.

Lemma ascending_NoDup (s : t) : ascending s -> List.NoDup s.
Proof.
  unfold ascending. induction 1 as [|a s Hs IH Ha]; constructor; [|assumption].
  intros Hin. rewrite List.Forall_forall in Ha. exact (lt_irrefl a (Ha a Hin)).
Qed.

(** The iteration order is determined by the elements alone. *)
Lemma ascending_unique (s1 s2 : t) :
  ascending s1 -> ascending s2 ->
  (forall y, In y s1 <-> In y s2) -> s1 = s2.
Proof.
  unfold ascending. intros H1. revert s2.
  induction H1 as [|a s1 Hs1 IH Ha]; intros s2 H2 Heq.
  - destruct s2 as [|b s2]; [reflexivity|].
    exfalso. apply (Heq b). now left.
  - destruct H2 as [|b s2 Hs2 Hb].
    + exfalso. apply (Heq a). now left.
    + rewrite List.Forall_forall in Ha, Hb.
      assert (Hab : a = b).
      { destruct (proj1 (Heq a) (or_introl eq_refl)) as [Hba|Hin];
          [now symmetry|].
        destruct (proj2 (Heq b) (or_introl eq_refl)) as [Hba|Hin'];
          [assumption|].
        exfalso. exact (lt_asym _ _ (Hb a Hin) (Ha b Hin')). }
      subst b. f_equal. apply IH; [assumption|].
      intros y. split; intros Hy.
      * destruct (proj1 (Heq y) (or_intror Hy)) as [Hya|Hin]; [|assumption].
        subst y. exfalso. exact (lt_irrefl _ (Ha a Hy)).
      * destruct (proj2 (Heq y) (or_intror Hy)) as [Hya|Hin]; [|assumption].
        subst y. exfalso. exact (lt_irrefl _ (Hb a Hy)).
Qed.

End StdSetFacts.

(** ** How [scan] builds its [Result] *)
Section ResultFacts.

Lemma fold_add_found_string (l : list string) (res : pResult) :
  fold_left add_found_string l res =
  Result.mk (Result._level res) (Result._summary res)
            (Result._data res ++ map (fun s => TAB +:+ s) l).
Proof.
  revert res. induction l as [|s l IH]; intros res; simpl.
  - rewrite app_nil_r. now destruct res.
  - rewrite IH. simpl. now rewrite <- app_assoc.
Qed.

Lemma record_lines_plain (f : string) (it : Match) :
  record_lines f false it = [Match_index it f].
Proof. reflexivity. Qed.

Lemma record_lines_strings (f : string) (it : Match) :
  record_lines f true it =
  (Match_index it f +:+ " String(s) found:")
    :: map (fun s => TAB +:+ s) (StdSet.iterate (get_found_strings it)).
Proof.
  unfold record_lines, scan_record. simpl.
  now rewrite fold_add_found_string.
Qed.

Lemma scan_record_eq (f : string) (show : bool) (res : pResult)
    (it : Match) :
  scan_record f show res it =
  Result.mk (Result._level res) (Result._summary res)
            (Result._data res ++ record_lines f show it).
Proof.
  destruct show.
  - rewrite record_lines_strings. unfold scan_record. simpl.
    rewrite fold_add_found_string. simpl. now rewrite <- app_assoc.
  - reflexivity.
Qed.

Lemma fold_scan_record (f : string) (show : bool) (m : matches)
    (res : pResult) :
  fold_left (scan_record f show) m res =
  Result.mk (Result._level res) (Result._summary res)
            (Result._data res ++ concat (map (record_lines f show) m)).
Proof.
  revert res. induction m as [|it m IH]; intros res; simpl.
  - rewrite app_nil_r. now destruct res.
  - rewrite IH, scan_record_eq. simpl. now rewrite <- app_assoc.
Qed.

Lemma load_attempts_app (t1 t2 : list Event) :
  load_attempts (t1 ++ t2) = load_attempts t1 + load_attempts t2.
Proof. unfold load_attempts. now rewrite List.filter_app, length_app. Qed.

End ResultFacts.

(** ** [scan] case by case *)
Section ScanFacts.

Context {E : Type} {engine : Yara E}.

Variables (pe : PE) (summary : string) (level : Result.LEVEL)
          (meta_field_name : string) (show_strings : bool).

(** [scan] with the plumbing of the world removed. *)
Lemma scan_eq (w : World E) :
  scan pe summary level meta_field_name show_strings w =
  let rf := _rule_file (this w) in
  let (ok, e1) := load_rules rf (_engine (this w)) in
  if ok then
    let (m, e2) := scan_file (get_path pe) e1 in
    (if Nat.ltb 0 (length m)
     then fold_left (scan_record meta_field_name show_strings) m
            (Result.set_summary summary
               (Result.set_level level Result.new))
     else Result.new,
     mkWorld (mkYaraPlugin rf e2)
             (trace w ++ [Ev_load_rules rf true;
                          Ev_scan_file (get_path pe)]))
  else
    (Result.new,
     mkWorld (mkYaraPlugin rf e1)
             (trace w ++ [Ev_load_rules rf false;
                          Ev_PRINT_ERROR
                            ("Could not load " +:+ rf +:+ "!")])).
Proof.
  unfold scan, _load_rules, bind, read_rule_file, engine_load_rules,
    engine_scan_file, PRINT_ERROR, emit, ret.
  cbv zeta.
  destruct (load_rules (_rule_file (this w)) (_engine (this w)))
    as [[|] e1]; simpl.
  - destruct (scan_file (get_path pe) e1) as [m e2]; simpl.
    destruct (Nat.ltb 0 (length m)); simpl;
      rewrite <- app_assoc; reflexivity.
  - rewrite <- app_assoc. reflexivity.
Qed.

(** The [Result] in terms of what the engine answered. *)
Lemma scan_result (w : World E) :
  fst (scan pe summary level meta_field_name show_strings w) =
  let loaded := load_rules (_rule_file (this w)) (_engine (this w)) in
  if fst loaded then
    match fst (scan_file (get_path pe) (snd loaded)) with
    | [] => Result.new
    | m => Result.mk level (Some summary)
             (concat (map (record_lines meta_field_name show_strings) m))
    end
  else Result.new.
Proof.
  rewrite scan_eq. cbv zeta.
  destruct (load_rules (_rule_file (this w)) (_engine (this w)))
    as [[|] e1]; simpl; [|reflexivity].
  destruct (scan_file (get_path pe) e1) as [[|it m] e2]; simpl;
    [reflexivity|].
  rewrite fold_scan_record, scan_record_eq. simpl. reflexivity.
Qed.

(** The world [scan] leaves behind. *)
Lemma scan_world (w : World E) :
  let rf := _rule_file (this w) in
  let loaded := load_rules rf (_engine (this w)) in
  let w' := snd (scan pe summary level meta_field_name show_strings w) in
  _rule_file (this w') = rf /\
  trace w' =
    trace w ++
      Ev_load_rules rf (fst loaded)
      :: (if fst loaded then [Ev_scan_file (get_path pe)]
          else [Ev_PRINT_ERROR ("Could not load " +:+ rf +:+ "!")]) /\
  _engine (this w') =
    (if fst loaded then snd (scan_file (get_path pe) (snd loaded))
     else snd loaded).
Proof.
  cbv zeta. rewrite scan_eq. cbv zeta.
  destruct (load_rules (_rule_file (this w)) (_engine (this w)))
    as [[|] e1]; simpl.
  - destruct (scan_file (get_path pe) e1) as [m e2]; simpl. auto.
  - auto.
Qed.

End ScanFacts.

Lemma analyze_is_scan {E : Type} {engine : Yara E} (p : Plugin) (pe : PE) :
  analyze p pe =
  scan pe (summary_of p) (level_of p) (meta_field_name_of p)
       (show_strings_of p).
Proof. destruct p; reflexivity. Qed.

(** ** The scan-and-report protocol *)
Section Protocol.

Context {E : Type} {engine : Yara E}.

(** C1. When loading the rule file fails, [scan] -- hence [analyze] of
    every plugin -- returns normally with the [Result] it created and
    never touched: level none, no summary, no information.  The only
    things it did are the load attempt and the diagnostic; the engine is
    not asked to scan. *)
Theorem scan_rule_load_failure (pe : PE) (summary : string)
    (level : Result.LEVEL) (meta_field_name : string) (show_strings : bool)
    (w : World E) :
  fst (load_rules (_rule_file (this w)) (_engine (this w))) = false ->
  let out := scan pe summary level meta_field_name show_strings w in
  Result._level (fst out) = Result.NO_OPINION /\
  Result._summary (fst out) = None /\
  Result._data (fst out) = [] /\
  trace (snd out) =
    trace w ++
      [Ev_load_rules (_rule_file (this w)) false;
       Ev_PRINT_ERROR ("Could not load " +:+ _rule_file (this w) +:+ "!")] /\
  (forall p : Plugin, fst (analyze p pe w) = Result.new).
Proof.
  intros Hload. cbv zeta.
  pose proof (scan_world pe summary level meta_field_name show_strings w)
    as Hw. cbv zeta in Hw. destruct Hw as (_ & Htrace & _).
  rewrite Hload in Htrace.
  rewrite scan_result. cbv zeta. rewrite Hload.
  repeat split; try reflexivity; [exact Htrace|].
  intros p. rewrite analyze_is_scan, scan_result. cbv zeta.
  now rewrite Hload.
Qed.

(** C2. When the engine reports no match record for the target, the
    [Result] is the untouched one: level none, summary unset, no
    information. *)
Theorem scan_zero_matches (pe : PE) (summary : string)
    (level : Result.LEVEL) (meta_field_name : string) (show_strings : bool)
    (w : World E) :
  fst (scan_file (get_path pe)
         (snd (load_rules (_rule_file (this w)) (_engine (this w))))) = [] ->
  let res := fst (scan pe summary level meta_field_name show_strings w) in
  Result._level res = Result.NO_OPINION /\
  Result._summary res = None /\
  Result._data res = [] /\
  (forall p : Plugin, fst (analyze p pe w) = Result.new).
Proof.
  intros Hm. cbv zeta.
  assert (Hscan : forall s l f b, fst (scan pe s l f b w) = Result.new).
  { intros s l f b. rewrite scan_result. cbv zeta. rewrite Hm.
    now destruct (fst (load_rules _ _)). }
  rewrite Hscan. repeat split.
  intros p. now rewrite analyze_is_scan.
Qed.

(** C3. With [show_strings = true], every match record contributes, in
    this order, the marker line "<field value> String(s) found:" and one
    line "<tab><substring>" per element of the record's set of matched
    substrings.  The set holds exactly the substrings the engine hit,
    each once, and is walked in strictly ascending lexicographic order;
    that order depends on the set of substrings alone. *)
Theorem scan_show_strings (pe : PE) (summary : string)
    (level : Result.LEVEL) (meta_field_name : string) (w : World E)
    (m : matches) :
  fst (load_rules (_rule_file (this w)) (_engine (this w))) = true ->
  fst (scan_file (get_path pe)
         (snd (load_rules (_rule_file (this w)) (_engine (this w))))) = m ->
  Result._data (fst (scan pe summary level meta_field_name true w)) =
    concat
      (map (fun it : Match =>
              (Match_index it meta_field_name +:+ " String(s) found:")
                :: map (fun s => TAB +:+ s)
                     (StdSet.iterate (get_found_strings it)))
           m) /\
  (forall it : Match,
      StdSet.ascending (get_found_strings it) /\
      List.NoDup (StdSet.iterate (get_found_strings it)) /\
      (forall s, In s (StdSet.iterate (get_found_strings it))
                 <-> In s (found it)) /\
      (forall it' : Match,
          (forall s, In s (found it) <-> In s (found it')) ->
          get_found_strings it = get_found_strings it')).
Proof.
  intros Hload Hm. split.
  - rewrite scan_result. cbv zeta. rewrite Hload, Hm.
    destruct m as [|it m']; [reflexivity|].
    cbn [Result._data]. f_equal.
    apply map_ext. intros it0. apply record_lines_strings.
  - intros it. unfold get_found_strings, StdSet.iterate.
    repeat split.
    + apply of_list_ascending.
    + apply ascending_NoDup, of_list_ascending.
    + apply of_list_In.
    + apply of_list_In.
    + intros it' Hsame.
      apply ascending_unique; try apply of_list_ascending.
      intros y. rewrite !of_list_In. apply Hsame.
Qed.

(** C4. The information of the [Result] is the concatenation, in the
    order the engine returned the records, of the lines of each record;
    the lines of a record depend on that record alone and are never
    none, and the number of lines is the sum over the records: nothing is
    merged or dropped across records. *)
Theorem scan_records_in_order (pe : PE) (summary : string)
    (level : Result.LEVEL) (meta_field_name : string) (show_strings : bool)
    (w : World E) (m : matches) :
  fst (load_rules (_rule_file (this w)) (_engine (this w))) = true ->
  fst (scan_file (get_path pe)
         (snd (load_rules (_rule_file (this w)) (_engine (this w))))) = m ->
  let res := fst (scan pe summary level meta_field_name show_strings w) in
  Result._data res =
    concat (map (record_lines meta_field_name show_strings) m) /\
  length (Result._data res) =
    list_sum
      (map (fun it => length (record_lines meta_field_name show_strings it))
           m) /\
  (forall m1 m2 : matches,
      m = m1 ++ m2 ->
      Result._data res =
        concat (map (record_lines meta_field_name show_strings) m1)
        ++ concat (map (record_lines meta_field_name show_strings) m2)) /\
  (forall it : Match,
      1 <= length (record_lines meta_field_name show_strings it)).
Proof.
  intros Hload Hm. cbv zeta.
  assert (Hdata :
    Result._data (fst (scan pe summary level meta_field_name show_strings w))
    = concat (map (record_lines meta_field_name show_strings) m)).
  { rewrite scan_result. cbv zeta. rewrite Hload, Hm.
    now destruct m. }
  rewrite Hdata. split; [reflexivity|]. split; [|split].
  - clear. induction m as [|it m' IH]; [reflexivity|].
    cbn [map concat list_sum fold_right]. rewrite length_app.
    f_equal. exact IH.
  - intros m1 m2 ->. now rewrite map_app, concat_app.
  - intros it. destruct show_strings.
    + rewrite record_lines_strings. cbn [length]. lia.
    + rewrite record_lines_plain. cbn [length]. lia.
Qed.

(** C5. The ClamAV plugin, on a target for which the engine returns the
    single record whose "signature" field is "EICAR-Test", returns
    information ["EICAR-Test"], level MALICIOUS and its summary. *)
Theorem clamav_single_signature (pe : PE) (w : World E) (it : Match) :
  fst (load_rules (_rule_file (this w)) (_engine (this w))) = true ->
  fst (scan_file (get_path pe)
         (snd (load_rules (_rule_file (this w)) (_engine (this w))))) = [it] ->
  Match_index it "signature" = "EICAR-Test" ->
  fst (analyze ClamavPlugin pe w) =
    Result.mk Result.MALICIOUS (Some "Matching ClamAV signature(s):")
              ["EICAR-Test"].
Proof.
  intros Hload Hm Hsig. rewrite analyze_is_scan, scan_result.
  cbv zeta. rewrite Hload, Hm. cbn. now rewrite Hsig.
Qed.

(** C9. With [show_strings = true], a record whose set of matched
    substrings is empty contributes its marker line and nothing else:
    the line sits between the lines of the records before it and the
    lines of the records after it. *)
Theorem scan_show_strings_empty_set (pe : PE) (summary : string)
    (level : Result.LEVEL) (meta_field_name : string) (w : World E)
    (before after : matches) (it : Match) :
  fst (load_rules (_rule_file (this w)) (_engine (this w))) = true ->
  fst (scan_file (get_path pe)
         (snd (load_rules (_rule_file (this w)) (_engine (this w)))))
    = before ++ it :: after ->
  get_found_strings it = StdSet.empty ->
  Result._data (fst (scan pe summary level meta_field_name true w)) =
    concat (map (record_lines meta_field_name true) before)
    ++ [Match_index it meta_field_name +:+ " String(s) found:"]
    ++ concat (map (record_lines meta_field_name true) after).
Proof.
  intros Hload Hm Hempty.
  rewrite scan_result. cbv zeta. rewrite Hload, Hm.
  assert (Hit : record_lines meta_field_name true it =
                [Match_index it meta_field_name +:+ " String(s) found:"]).
  { rewrite record_lines_strings, Hempty. reflexivity. }
  destruct (before ++ it :: after) as [|x l] eqn:Hl.
  - destruct before; discriminate.
  - rewrite <- Hl. cbn [Result._data].
    rewrite map_app, concat_app. cbn [map concat]. now rewrite Hit.
Qed.

End Protocol.

(** ** Repeated calls on one plugin object *)
Section Lifetime.

Context {E : Type} {engine : Yara E}.

(** Two worlds in which the engine answers alike yield the same
    [Result]. *)
Lemma scan_same_answers (pe : PE) (summary : string)
    (level : Result.LEVEL) (meta_field_name : string) (show_strings : bool)
    (w w' : World E) :
  fst (load_rules (_rule_file (this w')) (_engine (this w'))) =
    fst (load_rules (_rule_file (this w)) (_engine (this w))) ->
  fst (scan_file (get_path pe)
         (snd (load_rules (_rule_file (this w')) (_engine (this w'))))) =
    fst (scan_file (get_path pe)
           (snd (load_rules (_rule_file (this w)) (_engine (this w))))) ->
  fst (scan pe summary level meta_field_name show_strings w') =
    fst (scan pe summary level meta_field_name show_strings w).
Proof.
  intros Hload Hm. rewrite !scan_result. cbv zeta.
  now rewrite Hload, Hm.
Qed.

Lemma analyze_all_cons (p : Plugin) (pe : PE) (pes : list PE)
    (w : World E) :
  analyze_all p (pe :: pes) w =
  (fst (analyze p pe w) :: fst (analyze_all p pes (snd (analyze p pe w))),
   snd (analyze_all p pes (snd (analyze p pe w)))).
Proof.
  simpl. unfold bind, ret.
  destruct (analyze p pe w) as [r w1]. simpl.
  now destruct (analyze_all p pes w1).
Qed.

Lemma analyze_configured (p : Plugin) (pe : PE) (w : World E) :
  configured_by p (fst (analyze p pe w)).
Proof.
  rewrite analyze_is_scan, scan_result. cbv zeta. unfold configured_by.
  destruct (fst (load_rules _ _)); [|now left].
  destruct (fst (scan_file _ _)); [now left|right]. now split.
Qed.

Lemma analyze_all_frame (p : Plugin) (pes : list PE) (w : World E) :
  _rule_file (this (snd (analyze_all p pes w))) = _rule_file (this w) /\
  (exists new : list Event,
      trace (snd (analyze_all p pes w)) = trace w ++ new /\
      List.Forall (loads_from (_rule_file (this w))) new) /\
  List.Forall (configured_by p) (fst (analyze_all p pes w)).
Proof.
  revert w. induction pes as [|pe pes IH]; intros w.
  - simpl. split; [reflexivity|]. split; [|constructor].
    exists []. split; [now rewrite app_nil_r|constructor].
  - rewrite analyze_all_cons. cbn [fst snd].
    destruct (IH (snd (analyze p pe w))) as (Hrf & (new & Htr & Hnew) & Hres).
    pose proof (scan_world pe (summary_of p) (level_of p)
                  (meta_field_name_of p) (show_strings_of p) w) as Hw.
    cbv zeta in Hw. rewrite <- analyze_is_scan in Hw.
    destruct Hw as (Hrf1 & Htr1 & _).
    rewrite Hrf1 in Hrf, Hnew. split; [exact Hrf|]. split.
    + eexists. split.
      * rewrite Htr, Htr1, <- app_assoc. reflexivity.
      * apply List.Forall_app. split; [|exact Hnew].
        constructor; [reflexivity|].
        destruct (fst (load_rules _ _)); repeat constructor.
    + constructor; [apply analyze_configured|exact Hres].
Qed.

(** C6 (amended). A failed rule load is not terminal: the plugin keeps no
    record of it.  Every call of [scan], hence of [analyze] -- the first
    one or one that follows a failed load -- makes exactly one load
    attempt, with the rule file of the object.  A call whose attempt fails
    returns the untouched [Result]; a call whose attempt succeeds returns
    the [Result] built from the records the engine returns for the target
    at that call (the untouched one when there is none), whatever the
    outcome of the calls before it. *)
Theorem scan_always_attempts_load (pe : PE) (summary : string)
    (level : Result.LEVEL) (meta_field_name : string) (show_strings : bool)
    (w : World E) :
  let rf := _rule_file (this w) in
  let report := fun m : matches =>
    match m with
    | [] => Result.new
    | _ => Result.mk level (Some summary)
             (concat (map (record_lines meta_field_name show_strings) m))
    end in
  let first := scan pe summary level meta_field_name show_strings w in
  let w1 := snd first in
  (exists rest : list Event,
      trace w1 =
        trace w ++
          Ev_load_rules rf (fst (load_rules rf (_engine (this w)))) :: rest /\
      load_attempts rest = 0) /\
  load_attempts (trace w1) = S (load_attempts (trace w)) /\
  fst first =
    (if fst (load_rules rf (_engine (this w)))
     then report (fst (scan_file (get_path pe)
                         (snd (load_rules rf (_engine (this w))))))
     else Result.new) /\
  (forall pe2 : PE,
      let second := scan pe2 summary level meta_field_name show_strings w1 in
      (exists rest : list Event,
          trace (snd second) =
            trace w1 ++
              Ev_load_rules rf (fst (load_rules rf (_engine (this w1))))
              :: rest /\
          load_attempts rest = 0) /\
      load_attempts (trace (snd second)) = S (S (load_attempts (trace w))) /\
      fst second =
        (if fst (load_rules rf (_engine (this w1)))
         then report (fst (scan_file (get_path pe2)
                             (snd (load_rules rf (_engine (this w1))))))
         else Result.new)) /\
  (forall (p : Plugin) (pe2 : PE),
      let w1p := snd (analyze p pe w) in
      load_attempts (trace (snd (analyze p pe2 w1p)))
        = S (S (load_attempts (trace w))) /\
      fst (analyze p pe2 w1p) =
        (if fst (load_rules rf (_engine (this w1p)))
         then
           match fst (scan_file (get_path pe2)
                        (snd (load_rules rf (_engine (this w1p))))) with
           | [] => Result.new
           | m => Result.mk (level_of p) (Some (summary_of p))
                    (concat
                       (map (record_lines (meta_field_name_of p)
                               (show_strings_of p)) m))
           end
         else Result.new)).
Proof.
  assert (Hone : forall pe0 s l f b (w0 : World E),
    exists rest : list Event,
      trace (snd (scan pe0 s l f b w0)) =
        trace w0 ++
          Ev_load_rules (_rule_file (this w0))
            (fst (load_rules (_rule_file (this w0)) (_engine (this w0))))
          :: rest /\
      load_attempts rest = 0).
  { intros pe0 s l f b w0.
    pose proof (scan_world pe0 s l f b w0) as Hw.
    cbv zeta in Hw. destruct Hw as (_ & Htr & _).
    eexists. split; [exact Htr|].
    now destruct (fst (load_rules _ _)). }
  assert (Hcount : forall pe0 s l f b (w0 : World E),
    load_attempts (trace (snd (scan pe0 s l f b w0)))
    = S (load_attempts (trace w0))).
  { intros pe0 s l f b w0.
    destruct (Hone pe0 s l f b w0) as (rest & -> & Hrest).
    match goal with
    | |- context [?ev :: rest] => change (ev :: rest) with ([ev] ++ rest)
    end.
    rewrite !load_attempts_app, Hrest. cbn. lia. }
  assert (Hres : forall pe0 s l f b (w0 : World E),
    fst (scan pe0 s l f b w0) =
    (if fst (load_rules (_rule_file (this w0)) (_engine (this w0)))
     then
       (fun m : matches =>
          match m with
          | [] => Result.new
          | _ => Result.mk l (Some s) (concat (map (record_lines f b) m))
          end)
         (fst (scan_file (get_path pe0)
                 (snd (load_rules (_rule_file (this w0))
                         (_engine (this w0))))))
     else Result.new)).
  { intros pe0 s l f b w0. rewrite scan_result. cbv zeta.
    destruct (fst (load_rules _ _)); [|reflexivity].
    now destruct (fst (scan_file _ _)). }
  assert (Hrf : forall s l f b,
    _rule_file (this (snd (scan pe s l f b w))) = _rule_file (this w)).
  { intros s l f b. pose proof (scan_world pe s l f b w) as Hw.
    cbv zeta in Hw. tauto. }
  cbv zeta. split; [apply Hone|]. split; [apply Hcount|].
  split; [apply Hres|]. split.
  - intros pe2. split; [|split].
    + rewrite <- (Hrf summary level meta_field_name show_strings).
      apply Hone.
    + now rewrite !Hcount.
    + rewrite <- (Hrf summary level meta_field_name show_strings).
      apply Hres.
  - intros p pe2. rewrite !analyze_is_scan. split.
    + now rewrite !Hcount.
    + rewrite <- (Hrf (summary_of p) (level_of p) (meta_field_name_of p)
                    (show_strings_of p)).
      rewrite Hres.
      destruct (fst (load_rules _ _)); [|reflexivity].
      now destruct (fst (scan_file _ _)).
Qed.

(** C7. Two successive calls of [analyze] on the same target, the engine
    answering the second time what it answered the first time (same
    outcome of the rule load, same match records), return equal
    [Result]s: same level, same summary, same information. *)
Theorem analyze_twice_identical (p : Plugin) (pe : PE) (w : World E) :
  let rf := _rule_file (this w) in
  let w1 := snd (analyze p pe w) in
  fst (load_rules rf (_engine (this w1))) =
    fst (load_rules rf (_engine (this w))) ->
  fst (scan_file (get_path pe) (snd (load_rules rf (_engine (this w1))))) =
    fst (scan_file (get_path pe) (snd (load_rules rf (_engine (this w))))) ->
  fst (analyze p pe w1) = fst (analyze p pe w).
Proof.
  cbv zeta. intros Hload Hm.
  pose proof (scan_world pe (summary_of p) (level_of p)
                (meta_field_name_of p) (show_strings_of p) w) as Hw.
  cbv zeta in Hw. rewrite <- analyze_is_scan in Hw.
  destruct Hw as (Hrf & _ & _).
  rewrite !analyze_is_scan. rewrite analyze_is_scan in Hload, Hm, Hrf.
  apply scan_same_answers; rewrite Hrf; assumption.
Qed.

(** C10. A call leaves the configuration of the plugin as it was.
    [scan] returns the object with the rule file it had; over any series
    of [analyze] calls the rule file stays the one fixed at construction,
    each load attempt of the series names it, each [Result] is either
    untouched or carries the plugin's level and summary, and a call made
    after the series runs [scan] with the plugin's constants. *)
Theorem scan_keeps_configuration (w : World E) :
  (forall pe summary level meta_field_name show_strings,
      _rule_file
        (this (snd (scan pe summary level meta_field_name show_strings w)))
      = _rule_file (this w)) /\
  (forall (p : Plugin) (pes : list PE),
      let out := analyze_all p pes w in
      _rule_file (this (snd out)) = _rule_file (this w) /\
      (exists new : list Event,
          trace (snd out) = trace w ++ new /\
          List.Forall (loads_from (_rule_file (this w))) new) /\
      List.Forall (configured_by p) (fst out) /\
      (forall pe : PE,
          analyze p pe (snd out) =
          scan pe (summary_of p) (level_of p) (meta_field_name_of p)
               (show_strings_of p) (snd out))).
Proof.
  split.
  - intros pe summary level meta_field_name show_strings.
    pose proof (scan_world pe summary level meta_field_name show_strings w)
      as Hw. cbv zeta in Hw. tauto.
  - intros p pes. cbv zeta.
    destruct (analyze_all_frame p pes w) as (Hrf & Hnew & Hres).
    repeat split; try assumption.
    intros pe. now rewrite analyze_is_scan.
Qed.

End Lifetime.

(** ** Registration *)
Section Registration.

Import Catalog.

Lemma lookup_app_found (key : string) (c c' : Catalog.t)
    (d : DetectorDescriptor) :
  lookup key c = Some d -> lookup key (c ++ c') = Some d.
Proof.
  unfold lookup. induction c as [|x c IH]; simpl; [discriminate|].
  destruct (String.eqb (id x) key); [trivial|exact IH].
Qed.

(** An entry, once in the catalog, is what a lookup finds after any
    further registration. *)
Lemma register_keeps_entries (d d' : DetectorDescriptor) (c : Catalog.t)
    (key : string) :
  lookup key c = Some d' -> lookup key (fst (register d c)) = Some d'.
Proof.
  intros Hkey. unfold register.
  destruct (lookup (id d) c); simpl; [exact Hkey|].
  now apply lookup_app_found.
Qed.

(** C8. Registering a detector under an id that is already registered is
    answered with a configuration error naming the id, and the catalog
    is left as it was: the earlier entry stays the one a lookup finds. *)
Theorem register_duplicate_rejected (d d0 : DetectorDescriptor)
    (c : Catalog.t) :
  lookup (id d) c = Some d0 ->
  register d c = (c, ConfigurationError (id d)) /\
  lookup (id d) (fst (register d c)) = Some d0 /\
  (forall p : Plugin,
      id d = get_id p -> AutoRegister p c = (c, ConfigurationError (get_id p))).
Proof.
  intros Hdup.
  assert (Hreg : register d c = (c, ConfigurationError (id d))).
  { unfold register. now rewrite Hdup. }
  split; [exact Hreg|]. split.
  - now apply register_keeps_entries.
  - intros p Hid. unfold AutoRegister, register. cbn [id descriptor_of].
    rewrite <- Hid, Hdup. reflexivity.
Qed.

(** The four registrations of plugins_yara.cpp use distinct ids: each
    of them is accepted. *)
Example static_registrations_accepted :
  static_registrations =
  (map descriptor_of
     [ClamavPlugin; CompilerDetectionPlugin; PEiDPlugin;
      SuspiciousStringsPlugin],
   [Registered; Registered; Registered; Registered]).
Proof. vm_compute. reflexivity. Qed.

End Registration.

(** ** The plugins on sample data *)
Section Samples.

Lemma scan_rule_load_failure_witness :
  let w := Scripted.world ClamavPlugin [] [eicar] in
  let out := scan sample_pe "Matching ClamAV signature(s):"
               Result.MALICIOUS "signature" false w in
  Result._level (fst out) = Result.NO_OPINION /\
  Result._summary (fst out) = None /\
  Result._data (fst out) = [] /\
  trace (snd out) =
    [Ev_load_rules "yara_rules/clamav.yara" false;
     Ev_PRINT_ERROR "Could not load yara_rules/clamav.yara!"] /\
  (forall p : Plugin, fst (analyze p sample_pe w) = Result.new).
Proof.
  exact (scan_rule_load_failure sample_pe "Matching ClamAV signature(s):"
           Result.MALICIOUS "signature" false
           (Scripted.world ClamavPlugin [] [eicar]) eq_refl).
Defined.

Lemma scan_zero_matches_witness :
  let w := Scripted.world PEiDPlugin [true] [] in
  let res := fst (scan sample_pe "PEiD Signature:" Result.SUSPICIOUS
                    "packer_name" false w) in
  Result._level res = Result.NO_OPINION /\
  Result._summary res = None /\
  Result._data res = [] /\
  (forall p : Plugin, fst (analyze p sample_pe w) = Result.new).
Proof.
  exact (scan_zero_matches sample_pe "PEiD Signature:" Result.SUSPICIOUS
           "packer_name" false (Scripted.world PEiDPlugin [true] []) eq_refl).
Defined.

(** The record "description" = "UPX" with hits UPX1, UPX0, UPX1. *)
Lemma scan_show_strings_witness :
  Result._data
    (fst (scan sample_pe "Strings found:" Result.SUSPICIOUS "description"
            true (Scripted.world SuspiciousStringsPlugin [true] [upx])))
  = ["UPX String(s) found:"; TAB +:+ "UPX0"; TAB +:+ "UPX1"].
Proof.
  exact (proj1 (scan_show_strings sample_pe "Strings found:"
                  Result.SUSPICIOUS "description"
                  (Scripted.world SuspiciousStringsPlugin [true] [upx]) [upx]
                  eq_refl eq_refl)).
Defined.

(** Twice the same record: its lines appear twice. *)
Lemma scan_records_in_order_witness :
  Result._data
    (fst (scan sample_pe "Matching compiler(s):" Result.NO_OPINION
            "description" false
            (Scripted.world CompilerDetectionPlugin [true] [upx; bare; upx])))
  = ["UPX"; "Bare"; "UPX"].
Proof.
  exact (proj1 (scan_records_in_order sample_pe "Matching compiler(s):"
                  Result.NO_OPINION "description" false
                  (Scripted.world CompilerDetectionPlugin [true] [upx; bare; upx])
                  [upx; bare; upx] eq_refl eq_refl)).
Defined.

Lemma clamav_single_signature_witness :
  fst (analyze ClamavPlugin sample_pe (Scripted.world ClamavPlugin [true] [eicar])) =
  Result.mk Result.MALICIOUS (Some "Matching ClamAV signature(s):")
            ["EICAR-Test"].
Proof.
  exact (clamav_single_signature sample_pe
           (Scripted.world ClamavPlugin [true] [eicar]) eicar
           eq_refl eq_refl eq_refl).
Defined.

Lemma scan_show_strings_empty_set_witness :
  Result._data
    (fst (scan sample_pe "Strings found:" Result.SUSPICIOUS "description"
            true (Scripted.world SuspiciousStringsPlugin [true] [upx; bare; upx])))
  = ["UPX String(s) found:"; TAB +:+ "UPX0"; TAB +:+ "UPX1";
     "Bare String(s) found:";
     "UPX String(s) found:"; TAB +:+ "UPX0"; TAB +:+ "UPX1"].
Proof.
  exact (scan_show_strings_empty_set sample_pe "Strings found:"
           Result.SUSPICIOUS "description"
           (Scripted.world SuspiciousStringsPlugin [true] [upx; bare; upx])
           [upx] [upx] bare eq_refl eq_refl eq_refl).
Defined.

(** The engine loads the rules at both calls and returns the same
    record. *)
Lemma analyze_twice_identical_witness :
  let w := Scripted.world ClamavPlugin [true; true] [eicar] in
  fst (analyze ClamavPlugin sample_pe
         (snd (analyze ClamavPlugin sample_pe w))) =
  fst (analyze ClamavPlugin sample_pe w).
Proof.
  exact (analyze_twice_identical ClamavPlugin sample_pe
           (Scripted.world ClamavPlugin [true; true] [eicar]) eq_refl eq_refl).
Defined.

Lemma register_duplicate_rejected_witness :
  let c := fst Catalog.static_registrations in
  let d := Catalog.mkDescriptor "clamav" "Another scanner." in
  Catalog.register d c = (c, Catalog.ConfigurationError "clamav") /\
  Catalog.lookup "clamav" (fst (Catalog.register d c)) =
    Some (Catalog.descriptor_of ClamavPlugin) /\
  (forall p : Plugin,
      "clamav" = get_id p ->
      Catalog.AutoRegister p c = (c, Catalog.ConfigurationError (get_id p))).
Proof.
  exact (register_duplicate_rejected
           (Catalog.mkDescriptor "clamav" "Another scanner.")
           (Catalog.descriptor_of ClamavPlugin)
           (fst Catalog.static_registrations) eq_refl).
Defined.

(** C6, as stated, fails: the rule file cannot be loaded at the first
    call of [analyze]; the second call attempts the load again. *)
Lemma failed_load_is_retried :
  ~ failed_load_is_terminal ClamavPlugin sample_pe sample_pe
      (Scripted.world ClamavPlugin [false; true] [eicar]).
Proof.
  unfold failed_load_is_terminal. intros Hterminal.
  specialize (Hterminal eq_refl). vm_compute in Hterminal.
  discriminate Hterminal.
Qed.

(** The second call even succeeds once the engine can load the rules. *)
Example retry_after_failure_reports :
  let w := Scripted.world ClamavPlugin [false; true] [eicar] in
  let first := analyze ClamavPlugin sample_pe w in
  let second := analyze ClamavPlugin sample_pe (snd first) in
  fst first = Result.new /\
  fst second =
    Result.mk Result.MALICIOUS (Some "Matching ClamAV signature(s):")
              ["EICAR-Test"] /\
  trace (snd second) =
    [Ev_load_rules "yara_rules/clamav.yara" false;
     Ev_PRINT_ERROR "Could not load yara_rules/clamav.yara!";
     Ev_load_rules "yara_rules/clamav.yara" true;
     Ev_scan_file "sample.exe"].
Proof. vm_compute. repeat split. Qed.

(** Absent metadata field: the empty string is reported. *)
Example absent_field_is_empty :
  fst (analyze PEiDPlugin sample_pe (Scripted.world PEiDPlugin [true] [eicar])) =
  Result.mk Result.SUSPICIOUS (Some "PEiD Signature:") [""].
Proof. vm_compute. reflexivity. Qed.

End Samples.


(** * Further properties of the plugins *)

(** ** [_load_rules] and the outcome of [scan] *)
Section Outcome.

Context {E : Type} {engine : Yara E}.

Lemma scan_data_loaded (pe : PE) (summary : string) (level : Result.LEVEL)
    (meta_field_name : string) (show_strings : bool) (w : World E) :
  fst (load_rules (_rule_file (this w)) (_engine (this w))) = true ->
  Result._data (fst (scan pe summary level meta_field_name show_strings w)) =
  concat
    (map (record_lines meta_field_name show_strings)
       (fst (scan_file (get_path pe)
               (snd (load_rules (_rule_file (this w)) (_engine (this w))))))).
Proof.
  intros Hload. rewrite scan_result. cbv zeta. rewrite Hload.
  now destruct (fst (scan_file _ _)).
Qed.

(** X1. [_load_rules] returns what the engine's [load_rules] answered for
    the rule file of the object and leaves the engine as that call left
    it; it prints the diagnostic naming the rule file exactly when it
    returns [false], and prints nothing when it returns [true]. *)
Theorem load_rules_reports_failure (w : World E) :
  let rf := _rule_file (this w) in
  let out := _load_rules w in
  fst out = fst (load_rules rf (_engine (this w))) /\
  _engine (this (snd out)) = snd (load_rules rf (_engine (this w))) /\
  _rule_file (this (snd out)) = rf /\
  trace (snd out) =
    trace w ++
      Ev_load_rules rf (fst out)
      :: (if fst out then []
          else [Ev_PRINT_ERROR ("Could not load " +:+ rf +:+ "!")]).
Proof.
  cbv zeta.
  unfold _load_rules, bind, read_rule_file, engine_load_rules, PRINT_ERROR,
    emit, ret.
  destruct (load_rules (_rule_file (this w)) (_engine (this w)))
    as [[|] e1]; simpl; repeat split.
  now rewrite <- app_assoc.
Qed.

(** X2. The summary is set exactly when the rules loaded and the engine
    returned at least one record, and so is the information non-empty;
    when the summary is set the level is the one passed to [scan], and
    when it is not the [Result] is the untouched one. *)
Theorem scan_summary_iff_match (pe : PE) (summary : string)
    (level : Result.LEVEL) (meta_field_name : string) (show_strings : bool)
    (w : World E) :
  let loaded := load_rules (_rule_file (this w)) (_engine (this w)) in
  let m := fst (scan_file (get_path pe) (snd loaded)) in
  let res := fst (scan pe summary level meta_field_name show_strings w) in
  (Result._summary res = Some summary <-> fst loaded = true /\ m <> []) /\
  (Result._data res <> [] <-> fst loaded = true /\ m <> []) /\
  (Result._summary res = Some summary -> Result._level res = level) /\
  (Result._summary res = None <-> res = Result.new).
Proof.
  cbv zeta. rewrite scan_result. cbv zeta.
  destruct (fst (load_rules _ _)).
  - destruct (fst (scan_file _ _)) as [|it m]; cbn.
    + repeat split; try tauto; try discriminate; intros []; congruence.
    + assert (Hlines : record_lines meta_field_name show_strings it
                       ++ concat (map (record_lines meta_field_name
                                         show_strings) m) <> []).
      { destruct show_strings.
        - rewrite record_lines_strings. discriminate.
        - rewrite record_lines_plain. discriminate. }
      repeat split; try tauto; try discriminate; try congruence.
  - cbn. repeat split; try tauto; try discriminate; intros []; congruence.
Qed.

(** X3. With [show_strings = false] and the rules loaded, the information
    is the value of the metadata field of each record, one line per
    record, in the order of the records; this is what the ClamAV, compiler
    and PEiD plugins return. *)
Theorem scan_plain_information (pe : PE) (summary : string)
    (level : Result.LEVEL) (meta_field_name : string) (w : World E) :
  fst (load_rules (_rule_file (this w)) (_engine (this w))) = true ->
  let m := fst (scan_file (get_path pe)
                  (snd (load_rules (_rule_file (this w))
                          (_engine (this w))))) in
  Result._data (fst (scan pe summary level meta_field_name false w)) =
    map (fun it => Match_index it meta_field_name) m /\
  length (Result._data (fst (scan pe summary level meta_field_name false w)))
    = length m /\
  (forall p : Plugin,
      p <> SuspiciousStringsPlugin ->
      Result._data (fst (analyze p pe w)) =
        map (fun it => Match_index it (meta_field_name_of p)) m).
Proof.
  intros Hload. cbv zeta.
  assert (Hplain : forall s l f,
    Result._data (fst (scan pe s l f false w)) =
    map (fun it => Match_index it f)
      (fst (scan_file (get_path pe)
              (snd (load_rules (_rule_file (this w)) (_engine (this w))))))).
  { intros s l f. rewrite scan_data_loaded by exact Hload.
    induction (fst (scan_file _ _)) as [|it m IH]; [reflexivity|].
    cbn [map concat]. rewrite IH, record_lines_plain. reflexivity. }
  split; [apply Hplain|]. split.
  - rewrite Hplain. apply length_map.
  - intros p Hp. rewrite analyze_is_scan.
    destruct p; try apply Hplain. now destruct Hp.
Qed.

(** X4. The arguments of [scan] do not interfere: the level and the
    summary of the [Result] do not depend on the metadata field name or on
    [show_strings], the information does not depend on the summary or the
    level, and the plugin object and the trace left by the call depend on
    none of the four. *)
Theorem scan_arguments_separate (pe : PE) (w : World E)
    (summary summary' : string) (level level' : Result.LEVEL)
    (meta_field_name meta_field_name' : string)
    (show_strings show_strings' : bool) :
  Result._level (fst (scan pe summary level meta_field_name show_strings w)) =
    Result._level
      (fst (scan pe summary level meta_field_name' show_strings' w)) /\
  Result._summary (fst (scan pe summary level meta_field_name show_strings w)) =
    Result._summary
      (fst (scan pe summary level meta_field_name' show_strings' w)) /\
  Result._data (fst (scan pe summary level meta_field_name show_strings w)) =
    Result._data
      (fst (scan pe summary' level' meta_field_name show_strings w)) /\
  snd (scan pe summary level meta_field_name show_strings w) =
    snd (scan pe summary' level' meta_field_name' show_strings' w).
Proof.
  rewrite !scan_result. cbv zeta. repeat split.
  - destruct (fst (load_rules _ _)); [|reflexivity].
    now destruct (fst (scan_file _ _)).
  - destruct (fst (load_rules _ _)); [|reflexivity].
    now destruct (fst (scan_file _ _)).
  - destruct (fst (load_rules _ _)); [|reflexivity].
    now destruct (fst (scan_file _ _)).
  - rewrite !scan_eq. cbv zeta.
    destruct (load_rules _ _) as [[|] e1]; [|reflexivity].
    now destruct (scan_file _ _).
Qed.

(** X5. The level of the [Result] of [analyze] is none or the level of the
    plugin.  MALICIOUS comes from the ClamAV plugin only, and only together
    with its summary; the compiler plugin reports level none whatever the
    engine returns, so that a match shows in its summary alone. *)
Theorem analyze_level_bound (p : Plugin) (pe : PE) (w : World E) :
  let res := fst (analyze p pe w) in
  (Result._level res = Result.NO_OPINION \/ Result._level res = level_of p) /\
  (Result._level res = Result.MALICIOUS <->
   p = ClamavPlugin /\
   Result._summary res = Some "Matching ClamAV signature(s):") /\
  Result._level (fst (analyze CompilerDetectionPlugin pe w)) =
    Result.NO_OPINION.
Proof.
  cbv zeta. rewrite !analyze_is_scan, !scan_result. cbv zeta.
  destruct (fst (load_rules _ _)).
  - destruct (fst (scan_file _ _)); cbn.
    + repeat split; try tauto; try discriminate; intros []; discriminate.
    + destruct p; cbn; repeat split; try tauto; try discriminate;
        intros []; discriminate.
  - cbn. repeat split; try tauto; try discriminate; intros []; discriminate.
Qed.

(** X6. The four plugins are told apart by their id, and each has a rule
    file of its own. *)
Theorem plugin_identities_distinct (p q : Plugin) :
  (get_id p = get_id q <-> p = q) /\
  (rule_file_of p = rule_file_of q <-> p = q).
Proof.
  split; split; intros H; try (now subst);
    destruct p, q; try reflexivity; discriminate H.
Qed.

End Outcome.

(** ** The lines of the matched strings *)
Section FoundStrings.

Context {E : Type} {engine : Yara E}.

Lemma insert_length (x : string) (s : StdSet.t) :
  length (StdSet.insert x s) <= S (length s).
Proof.
  induction s as [|y s IH]; simpl; [lia|].
  destruct (String.compare x y); simpl; lia.
Qed.

Lemma fold_insert_length (l : list string) (s : StdSet.t) :
  length (fold_left (fun s x => StdSet.insert x s) l s) <=
  length l + length s.
Proof.
  revert s. induction l as [|x l IH]; intros s; simpl; [lia|].
  specialize (IH (StdSet.insert x s)).
  pose proof (insert_length x s). lia.
Qed.

Lemma found_strings_length (it : Match) :
  length (StdSet.iterate (get_found_strings it)) <= length (found it).
Proof.
  unfold get_found_strings, StdSet.of_list, StdSet.iterate.
  pose proof (fold_insert_length (found it) StdSet.empty) as H.
  simpl in H. lia.
Qed.

(** X7. With [show_strings = true] and the rules loaded, the number of
    information lines is the number of records plus the sizes of their
    sets of matched strings; it is at most the number of records plus the
    number of hits, repeated hits of a string adding no line. *)
Theorem scan_show_strings_line_count (pe : PE) (summary : string)
    (level : Result.LEVEL) (meta_field_name : string) (w : World E) :
  fst (load_rules (_rule_file (this w)) (_engine (this w))) = true ->
  let m := fst (scan_file (get_path pe)
                  (snd (load_rules (_rule_file (this w))
                          (_engine (this w))))) in
  let res := fst (scan pe summary level meta_field_name true w) in
  length (Result._data res) =
    length m +
    list_sum
      (map (fun it => length (StdSet.iterate (get_found_strings it))) m) /\
  length (Result._data res) <=
    length m + list_sum (map (fun it => length (found it)) m).
Proof.
  intros Hload. cbv zeta. rewrite scan_data_loaded by exact Hload.
  induction (fst (scan_file _ _)) as [|it m IH]; [simpl; lia|].
  destruct IH as [IHeq IHle].
  cbn [map concat list_sum fold_right length].
  rewrite length_app, record_lines_strings. cbn [length].
  rewrite length_map.
  pose proof (found_strings_length it). unfold list_sum in IHeq, IHle. lia.
Qed.

(** X8. With [show_strings = true] and the rules loaded, every record has
    its marker line in the information and every string the engine hit in
    a record has its line "<tab><string>" there; conversely every line of
    the information is the marker line of a record or the line of a string
    hit in a record. *)
Theorem scan_show_strings_reports_hits (pe : PE) (summary : string)
    (level : Result.LEVEL) (meta_field_name : string) (w : World E) :
  fst (load_rules (_rule_file (this w)) (_engine (this w))) = true ->
  let m := fst (scan_file (get_path pe)
                  (snd (load_rules (_rule_file (this w))
                          (_engine (this w))))) in
  let info :=
    Result._data (fst (scan pe summary level meta_field_name true w)) in
  (forall it, In it m ->
      In (Match_index it meta_field_name +:+ " String(s) found:") info) /\
  (forall it s, In it m -> In s (found it) -> In (TAB +:+ s) info) /\
  (forall line, In line info ->
      exists it, In it m /\
        (line = Match_index it meta_field_name +:+ " String(s) found:" \/
         exists s, In s (found it) /\ line = TAB +:+ s)).
Proof.
  intros Hload. cbv zeta. rewrite scan_data_loaded by exact Hload.
  set (m := fst (scan_file _ _)). clearbody m.
  repeat split.
  - intros it Hit. apply List.in_concat.
    exists (record_lines meta_field_name true it). split.
    + now apply List.in_map.
    + rewrite record_lines_strings. now left.
  - intros it s Hit Hs. apply List.in_concat.
    exists (record_lines meta_field_name true it). split.
    + now apply List.in_map.
    + rewrite record_lines_strings. right.
      apply (List.in_map (fun s => TAB +:+ s)).
      unfold StdSet.iterate, get_found_strings. now apply of_list_In.
  - intros line Hline. apply List.in_concat in Hline.
    destruct Hline as (lines & Hlines & Hin).
    apply List.in_map_iff in Hlines. destruct Hlines as (it & <- & Hit).
    exists it. split; [exact Hit|].
    rewrite record_lines_strings in Hin. destruct Hin as [<-|Hin].
    + now left.
    + right. apply List.in_map_iff in Hin. destruct Hin as (s & <- & Hs).
      exists s. split; [|reflexivity].
      unfold StdSet.iterate, get_found_strings in Hs.
      exact (proj1 (of_list_In _ _) Hs).
Qed.

End FoundStrings.

(** ** What a series of calls asks of the engine *)
Section Series.

Context {E : Type} {engine : Yara E}.

Lemma analyze_trace (p : Plugin) (pe : PE) (w : World E) :
  trace (snd (analyze p pe w)) =
  trace w ++
    call_events (_rule_file (this w)) pe
      (fst (load_rules (_rule_file (this w)) (_engine (this w)))).
Proof.
  pose proof (scan_world pe (summary_of p) (level_of p)
                (meta_field_name_of p) (show_strings_of p) w) as Hw.
  cbv zeta in Hw. rewrite <- analyze_is_scan in Hw.
  destruct Hw as (_ & Htr & _). rewrite Htr. unfold call_events.
  now destruct (fst (load_rules _ _)).
Qed.

(** X9. A series of [analyze] calls on one plugin object returns one
    [Result] per target and leaves in the trace one block per target, in
    the order of the targets: the load attempt for the rule file of the
    object, followed by the scan of the target when the attempt succeeded
    and by the diagnostic when it failed.  So the engine is never asked to
    scan after a failed load, a failed load yields the untouched [Result],
    and the series makes as many load attempts as it has targets. *)
Theorem analyze_all_protocol (p : Plugin) (pes : list PE) (w : World E) :
  let out := analyze_all p pes w in
  exists oks : list bool,
    length oks = length pes /\
    trace (snd out) =
      trace w ++
        concat (zip_with (call_events (_rule_file (this w))) pes oks) /\
    List.Forall2
      (fun (ok : bool) res =>
         if ok then configured_by p res else res = Result.new)
      oks (fst out) /\
    length (fst out) = length pes /\
    load_attempts (trace (snd out)) = load_attempts (trace w) + length pes.
Proof.
  cbv zeta. revert w. induction pes as [|pe pes IH]; intros w.
  - exists []. simpl. rewrite app_nil_r. repeat split; [constructor|lia].
  - rewrite analyze_all_cons. cbn [fst snd].
    destruct (IH (snd (analyze p pe w)))
      as (oks & Hlen & Htr & Hres & Hn & Hloads).
    pose proof (scan_world pe (summary_of p) (level_of p)
                  (meta_field_name_of p) (show_strings_of p) w) as Hw.
    cbv zeta in Hw. rewrite <- analyze_is_scan in Hw.
    destruct Hw as (Hrf & _ & _).
    rewrite Hrf in Htr. rewrite analyze_trace in Htr, Hloads.
    exists (fst (load_rules (_rule_file (this w)) (_engine (this w))) :: oks).
    repeat split.
    + simpl. now rewrite Hlen.
    + rewrite Htr. cbn [zip_with concat]. now rewrite <- !app_assoc.
    + constructor; [|exact Hres].
      destruct (fst (load_rules _ _)) eqn:Hload.
      * apply analyze_configured.
      * rewrite analyze_is_scan, scan_result. cbv zeta. now rewrite Hload.
    + simpl. now rewrite Hn.
    + rewrite Hloads, load_attempts_app. simpl.
      unfold call_events, load_attempts. simpl.
      destruct (fst (load_rules _ _)); simpl; lia.
Qed.

End Series.

(** ** The further properties on sample data *)
Section MoreSamples.

Lemma scan_plain_information_witness :
  Result._data
    (fst (scan sample_pe "PEiD Signature:" Result.SUSPICIOUS "description"
            false (Scripted.world PEiDPlugin [true] [upx; bare])))
  = ["UPX"; "Bare"].
Proof.
  exact (proj1 (scan_plain_information sample_pe "PEiD Signature:"
                  Result.SUSPICIOUS "description"
                  (Scripted.world PEiDPlugin [true] [upx; bare]) eq_refl)).
Defined.

(** Three hits of two strings in the first record, none in the second:
    four lines. *)
Lemma scan_show_strings_line_count_witness :
  length
    (Result._data
       (fst (scan sample_pe "Strings found:" Result.SUSPICIOUS "description"
               true (Scripted.world SuspiciousStringsPlugin [true]
                       [upx; bare]))))
  = 4.
Proof.
  exact (proj1 (scan_show_strings_line_count sample_pe "Strings found:"
                  Result.SUSPICIOUS "description"
                  (Scripted.world SuspiciousStringsPlugin [true] [upx; bare])
                  eq_refl)).
Defined.

Lemma scan_show_strings_reports_hits_witness :
  In (TAB +:+ "UPX1")
     (Result._data
        (fst (scan sample_pe "Strings found:" Result.SUSPICIOUS "description"
                true (Scripted.world SuspiciousStringsPlugin [true]
                        [bare; upx])))).
Proof.
  refine (proj1 (proj2 (scan_show_strings_reports_hits sample_pe
                   "Strings found:" Result.SUSPICIOUS "description"
                   (Scripted.world SuspiciousStringsPlugin [true] [bare; upx])
                   eq_refl)) upx "UPX1" _ _).
  - right. left. reflexivity.
  - left. reflexivity.
Defined.

End MoreSamples.
